(** * A contact manager: the command dispatcher and the address book

    Shallow embedding of [src/assistant_bot.py] (the read-eval loop over a
    dictionary of contacts) and of [src/assistant_bot_cli.py] (the classes
    [Field], [Name], [Phone], [Record] and [AddressBook]).

    Python strings are sequences of Unicode code points.  Here a string is a
    [string] of the standard library whose characters are read as the code
    points U+0000 to U+00FF; on that range the built-in methods used by the
    program ([str.split], [str.lower], [str.isdigit], [repr]) are written out
    in full in [PyStr].

    Python objects are mutated through references.  Every method is
    therefore a computation in a monad that threads the mutated object and
    may raise an exception. *)

From Stdlib Require Import Ascii String.
From stdpp Require Import base decidable option list finite gmap strings.

Local Open Scope stdpp_scope.

(** ** Built-in string methods *)

Module PyStr.

Definition ord (c : ascii) : N := N_of_ascii c.
Definition chr (n : N) : ascii := ascii_of_N n.

Definition chars (s : string) : list ascii := list_ascii_of_string s.

Definition len (s : string) : nat := String.length s.

(** [c.isspace()]: the white space of [str.split()]. *)
Definition isspace (c : ascii) : bool :=
  let n := ord c in
  ((9 <=? n) && (n <=? 13) || (28 <=? n) && (n <=? 32)
   || (n =? 133) || (n =? 160))%N.

(** [c.isdigit()] for one character: the decimal digits and the
    superscript digits U+00B2, U+00B3 and U+00B9. *)
Definition isdigit_char (c : ascii) : bool :=
  let n := ord c in
  ((48 <=? n) && (n <=? 57) || (n =? 178) || (n =? 179) || (n =? 185))%N.

(** [c.isdecimal()] for one character: ['0'] to ['9']. *)
Definition isdecimal_char (c : ascii) : bool :=
  let n := ord c in ((48 <=? n) && (n <=? 57))%N.

(** [s.isdigit()]: every character is a digit and there is at least one. *)
Definition isdigit (s : string) : bool :=
  match chars s with
  | [] => false
  | cs => forallb isdigit_char cs
  end.

(** [c.lower()]: A-Z and the upper-case letters U+00C0 to U+00DE, except
    the multiplication sign U+00D7, move up by 32. *)
Definition lower_char (c : ascii) : ascii :=
  let n := ord c in
  if ((65 <=? n) && (n <=? 90)
      || (192 <=? n) && (n <=? 222) && negb (n =? 215))%N
  then chr (n + 32) else c.

Fixpoint lower (s : string) : string :=
  match s with
  | EmptyString => EmptyString
  | String c s' => String (lower_char c) (lower s')
  end.

(** [s.split()]: the maximal runs of characters that are not white space.
    [tok] is the run being read. *)
Fixpoint split_go (tok : string) (s : string) : list string :=
  match s with
  | EmptyString => if decide (tok = "") then [] else [tok]
  | String c s' =>
      if isspace c
      then (if decide (tok = "") then [] else [tok]) ++ split_go "" s'
      else split_go (tok +:+ String c "") s'
  end.

Definition split (s : string) : list string := split_go "" s.

(** [sep.join(l)]. *)
Fixpoint join (sep : string) (l : list string) : string :=
  match l with
  | [] => ""
  | [x] => x
  | x :: l' => x +:+ sep +:+ join sep l'
  end.

(** [c.isprintable()]. *)
Definition isprintable (c : ascii) : bool :=
  let n := ord c in
  negb ((n <? 32) || (127 <=? n) && (n <=? 160) || (n =? 173))%N.

Definition hex_digit (n : N) : ascii :=
  if (n <? 10)%N then chr (48 + n) else chr (87 + n).

Definition backslash : ascii := "092"%char.
Definition double_quote : ascii := "034"%char.
Definition single_quote : ascii := "039"%char.

(** One character of [repr(s)] when [quote] delimits the literal. *)
Definition repr_char (quote : ascii) (c : ascii) : string :=
  if decide (c = quote) then String backslash (String c "")
  else if decide (c = backslash) then String backslash (String backslash "")
  else if decide (c = "009"%char) then String backslash "t"
  else if decide (c = "010"%char) then String backslash "n"
  else if decide (c = "013"%char) then String backslash "r"
  else if isprintable c then String c ""
  else String backslash (String "x"
         (String (hex_digit (ord c / 16)) (String (hex_digit (ord c mod 16)) ""))).

Fixpoint repr_body (quote : ascii) (s : string) : string :=
  match s with
  | EmptyString => ""
  | String c s' => repr_char quote c +:+ repr_body quote s'
  end.

(** [repr(s)]: single quotes, unless [s] has a single quote and no double
    quote. *)
Definition repr (s : string) : string :=
  let quote :=
    if bool_decide (single_quote ∈ chars s)
       && negb (bool_decide (double_quote ∈ chars s))
    then double_quote else single_quote in
  String quote (repr_body quote s +:+ String quote "").

End PyStr.


(** ** Exceptions and mutable state *)

(** The exceptions the two modules raise or catch.  A [KeyError] keeps its
    argument, since its text is the [repr] of it.  The texts of the errors
    raised by the interpreter itself (unpacking, indexing) are CPython's;
    the program never looks at them. *)
Inductive exception :=
| ValueError (msg : string)
| KeyError (arg : string)
| IndexError (msg : string).

(** [str(e)], as [f"{e}"] formats an exception. *)
Definition str_of_exception (e : exception) : string :=
  match e with
  | ValueError msg => msg
  | KeyError arg => PyStr.repr arg
  | IndexError msg => msg
  end.

(** The result of running a computation on a mutable object of type [S]:
    either way the object is left in some state. *)
Inductive outcome (S A : Type) :=
| Return (a : A) (s : S)
| Raise (e : exception) (s : S).
Arguments Return {S A} a s.
Arguments Raise {S A} e s.

Definition M (S A : Type) : Type := S → outcome S A.

#[export] Instance M_ret {S} : MRet (M S) := λ A a s, Return a s.

#[export] Instance M_bind {S} : MBind (M S) := λ A B f m s,
  match m s with
  | Return a s' => f a s'
  | Raise e s' => Raise e s'
  end.

Definition raise {S A} (e : exception) : M S A := λ s, Raise e s.
Definition get {S} : M S S := λ s, Return s s.
Definition put {S} (s : S) : M S unit := λ _, Return () s.
Definition modify {S} (f : S → S) : M S unit := λ s, Return () (f s).

(** A computation that may raise but touches no object. *)
Definition lift {S A} (r : exception + A) : M S A :=
  match r with
  | inl e => raise e
  | inr a => mret a
  end.

Definition raises {S A} (o : outcome S A) : bool :=
  match o with
  | Return _ _ => false
  | Raise _ _ => true
  end.

Definition final_state {S A} (o : outcome S A) : S :=
  match o with
  | Return _ s => s
  | Raise _ s => s
  end.

(** ** Dictionaries in insertion order *)

(** A [dict] with string keys and values, as the dispatcher uses it: the
    entries in the order in which their keys were first inserted. *)
Module PyDict.

Definition dict : Type := list (string * string).

Fixpoint lookup_key (k : string) (d : dict) : option string :=
  match d with
  | [] => None
  | (k', v) :: d' => if decide (k' = k) then Some v else lookup_key k d'
  end.

(** [k in d]. *)
Definition contains (k : string) (d : dict) : bool :=
  bool_decide (is_Some (lookup_key k d)).

(** [d[k] = v]: an existing key keeps its place. *)
Fixpoint setitem (k v : string) (d : dict) : dict :=
  match d with
  | [] => [(k, v)]
  | (k', v') :: d' =>
      if decide (k' = k) then (k', v) :: d' else (k', v') :: setitem k v d'
  end.

(** [d[k]] on a [defaultdict(str)]: a missing key is first inserted with
    the value [str()]. *)
Definition defaultdict_getitem (k : string) : M dict string := λ d,
  match lookup_key k d with
  | Some v => Return v d
  | None => Return "" (setitem k "" d)
  end.

Definition keys (d : dict) : list string := d.*1.

End PyDict.

(** ** The command dispatcher, [assistant_bot.py] *)

Module assistant_bot.
Import PyDict.

(** The decorator [input_error]: the three caught exception classes are
    turned into the returned message. *)
Definition input_error (func : list string → M dict string)
  : list string → M dict string := λ args contacts,
  match func args contacts with
  | Return r c => Return r c
  | Raise (ValueError _) c => Return "Give me name and phone please." c
  | Raise (KeyError _ as e) c =>
      Return ("Given key not found " +:+ str_of_exception e) c
  | Raise (IndexError _) c => Return "Insufficient data provided." c
  end.

(** [cmd, *args = user_input.split()] needs at least one token. *)
Definition parse_input (user_input : string)
  : exception + (string * list string) :=
  match PyStr.split user_input with
  | [] => inl (ValueError "not enough values to unpack (expected at least 1, got 0)")
  | cmd :: args => inr (PyStr.lower cmd, args)
  end.

(** [name, phone = args]. *)
Definition unpack_pair (args : list string) : exception + (string * string) :=
  match args with
  | [] => inl (ValueError "not enough values to unpack (expected 2, got 0)")
  | [_] => inl (ValueError "not enough values to unpack (expected 2, got 1)")
  | [name; phone] => inr (name, phone)
  | _ => inl (ValueError "too many values to unpack (expected 2)")
  end.

Definition add_contact_body (args : list string) : M dict string :=
  '(name, phone) ← lift (unpack_pair args);
  modify (setitem name phone);;
  mret "Contact added.".

Definition add_contact := input_error add_contact_body.

Definition change_contact_body (args : list string) : M dict string :=
  '(name, phone) ← lift (unpack_pair args);
  contacts ← get;
  if contains name contacts then
    modify (setitem name phone);;
    mret "Contact updated."
  else
    raise (KeyError ("Contact " +:+ name +:+ " not found.")).

Definition change_contact := input_error change_contact_body.

Definition show_phone_body (args : list string) : M dict string :=
  name ← lift (match args with
               | [] => inl (IndexError "list index out of range")
               | name :: _ => inr name
               end);
  contacts ← get;
  if contains name contacts then
    defaultdict_getitem name
  else
    mret "Contact not found.".

Definition show_phone := input_error show_phone_body.

Definition show_all (contacts : dict) : string :=
  match contacts with
  | _ :: _ =>
      PyStr.join (String "010"%char "")
        ((λ '(name, phone), name +:+ ": " +:+ phone) <$> contacts)
  | [] => "No contacts found."
  end.

(** One pass through the body of [while True], on the line that [input]
    returned: the loop goes on after printing, ends after printing, or the
    exception leaves [main]. *)
Inductive step :=
| Continue (printed : string) (contacts : dict)
| Break (printed : string)
| Crash (e : exception).

Definition print_result (o : outcome dict string) : step :=
  match o with
  | Return msg contacts => Continue msg contacts
  | Raise e _ => Crash e
  end.

Definition loop_body (user_input : string) (contacts : dict) : step :=
  match parse_input user_input with
  | inl e => Crash e
  | inr (command, args) =>
      if bool_decide (command ∈ ["close"; "exit"]) then Break "Good bye!"
      else if decide (command = "hello") then
        Continue "How can I help you?" contacts
      else if decide (command = "add") then
        print_result (add_contact args contacts)
      else if decide (command = "change") then
        print_result (change_contact args contacts)
      else if decide (command = "phone") then
        print_result (show_phone args contacts)
      else if decide (command = "all") then
        Continue (show_all contacts) contacts
      else Continue "Invalid command." contacts
  end.

(** Where [main] stands after the lines typed so far; [out] lists what was
    printed, oldest first. *)
Inductive run :=
| Reading (contacts : dict) (out : list string)
| Exited (out : list string)
| Crashed (e : exception) (out : list string).

Fixpoint main_loop (lines : list string) (contacts : dict) (out : list string)
  : run :=
  match lines with
  | [] => Reading contacts out
  | user_input :: lines' =>
      match loop_body user_input contacts with
      | Continue printed contacts' =>
          main_loop lines' contacts' (out ++ [printed])
      | Break printed => Exited (out ++ [printed])
      | Crash e => Crashed e out
      end
  end.

Definition main (lines : list string) : run :=
  main_loop lines [] ["Welcome to the assistant bot!"].

End assistant_bot.

(** ** The address book, [assistant_bot_cli.py] *)

Module assistant_bot_cli.

(** [Field] and its subclasses [Name] and [Phone], which add no attribute. *)
Record Field := mkField { value : string }.

Definition Name : Type := Field.
Definition Phone : Type := Field.

Definition Name_init (v : string) : Name := mkField v.

(** [Phone.__init__]. *)
Definition Phone_init (v : string) : exception + Phone :=
  if negb (PyStr.isdigit v) || bool_decide (PyStr.len v ≠ 10)
  then inl (ValueError "Phone number must be 10 digits")
  else inr (mkField v).

(** A [Record] owns its [Phone] objects: [add_phone] makes a fresh one for
    each call and no method hands one out, so the list of their states
    describes the record. *)
Record Record := mkRecord { name : Name; phones : list Phone }.

Definition Record_init (n : string) : Record :=
  {| name := Name_init n; phones := [] |}.

Definition add_phone (phone : string) : M Record unit :=
  p ← lift (Phone_init phone);
  modify (λ self, {| name := name self; phones := phones self ++ [p] |}).

Definition remove_phone (phone : string) : M Record unit :=
  modify (λ self,
    {| name := name self;
       phones := filter (λ p, value p ≠ phone) (phones self) |}).

(** The loop of [edit_phone]: the first phone whose value is [old_phone]
    gets the value [new_phone]; [None] when the loop runs to its end. *)
Fixpoint edit_phone_loop (old_phone new_phone : string) (ps : list Phone)
  : option (list Phone) :=
  match ps with
  | [] => None
  | phone :: ps' =>
      if decide (value phone = old_phone)
      then Some ({| value := new_phone |} :: ps')
      else (phone ::.) <$> edit_phone_loop old_phone new_phone ps'
  end.

Definition edit_phone (old_phone new_phone : string) : M Record unit :=
  self ← get;
  match edit_phone_loop old_phone new_phone (phones self) with
  | Some ps => put {| name := name self; phones := ps |}
  | None => raise (ValueError "Phone not found")
  end.

Fixpoint find_phone_loop (phone : string) (ps : list Phone) : option string :=
  match ps with
  | [] => None
  | p :: ps' =>
      if decide (value p = phone) then Some (value p)
      else find_phone_loop phone ps'
  end.

Definition find_phone (phone : string) : M Record (option string) :=
  self ← get; mret (find_phone_loop phone (phones self)).

(** [AddressBook]: the [data] dictionary of the [UserDict].  Its methods
    never iterate over it, so a finite map describes it. *)
Definition AddressBook : Type := gmap string Record.

Definition AddressBook_init : AddressBook := ∅.

Definition add_record (record : Record) : M AddressBook unit :=
  modify (λ data : gmap string Record, <[value (name record) := record]> data).

(** [d.get(key, default)]. *)
Definition dict_get {V} (key : string) (default : option V)
    (d : gmap string V) : option V :=
  match d !! key with
  | Some v => Some v
  | None => default
  end.

Definition find (n : string) : M AddressBook (option Record) :=
  data ← get; mret (dict_get n None data).

Definition delete (n : string) : M AddressBook unit :=
  data ← get;
  if bool_decide (n ∈ dom (data : gmap string Record))
  then put (base.delete n data)
  else mret ().

End assistant_bot_cli.

(** ** What the specification calls a phone number *)

(** The specification's words, "a string of exactly 10 decimal digits". *)
Definition spec_ten_decimal_digits (s : string) : Prop :=
  length (PyStr.chars s) = 10 ∧
  Forall (λ c, c ∈ PyStr.chars "0123456789") (PyStr.chars s).

(** What [Phone.__init__] tests: ten characters, each passing
    [str.isdigit]. *)
Definition ten_isdigit (s : string) : Prop :=
  length (PyStr.chars s) = 10 ∧
  Forall (λ c, PyStr.isdigit_char c = true) (PyStr.chars s).

(** Ten times the superscript two, U+00B2. *)
Definition superscript_twos : string :=
  string_of_list_ascii (replicate 10 (PyStr.chr 178)).

(** The record of the module's example: John with two phones. *)
Definition john_record : assistant_bot_cli.Record :=
  final_state
    ((assistant_bot_cli.add_phone "1234567890";;
      assistant_bot_cli.add_phone "5555555555")
       (assistant_bot_cli.Record_init "John")).

(** ** What the specification says of the dispatcher *)

(** The verbs of the dispatcher. *)
Definition verbs : list string :=
  ["hello"; "add"; "change"; "phone"; "all"; "exit"; "close"].

(** A line without a token: all its characters are white space. *)
Definition blank (line : string) : Prop :=
  Forall (λ c, PyStr.isspace c = true) (PyStr.chars line).

(** Comparison that ignores the case of the letters A to Z. *)
Definition ascii_fold (c : ascii) : ascii :=
  let n := PyStr.ord c in
  if ((65 <=? n) && (n <=? 90))%N then PyStr.chr (n + 32) else c.

Definition spec_same_ignoring_case (s t : string) : Prop :=
  ascii_fold <$> PyStr.chars s = ascii_fold <$> PyStr.chars t.

Definition lower_case_letters : list ascii :=
  PyStr.chars "abcdefghijklmnopqrstuvwxyz".

(** The 256 characters, for properties decided by trying them all. *)
Definition all_chars : list ascii :=
  (λ n, PyStr.chr (N.of_nat n)) <$> seq 0 256.

#[export] Program Instance ascii_finite : Finite ascii := {| enum := all_chars |}.
Next Obligation. apply (bool_decide_unpack _). vm_compute. exact I. Qed.
Next Obligation.
  intros [[] [] [] [] [] [] [] []];
    apply (bool_decide_unpack _); vm_compute; exact I.
Qed.

(** ** Notions for the further properties *)

(** Every phone of the record would pass [Phone.__init__]. *)
Definition valid_phones (r : assistant_bot_cli.Record) : Prop :=
  Forall (λ p, ten_isdigit (assistant_bot_cli.value p))
         (assistant_bot_cli.phones r).

(** The values of the phones of a record, in order. *)
Definition phone_values (r : assistant_bot_cli.Record) : list string :=
  assistant_bot_cli.value <$> assistant_bot_cli.phones r.

(** A token: a non-empty string without white space. *)
Definition token (s : string) : Prop :=
  s ≠ "" ∧ Forall (λ c, PyStr.isspace c = false) (PyStr.chars s).

(** The number of line feeds in a string. *)
Definition count_newlines (s : string) : nat :=
  length (filter (λ c, c = "010"%char) (PyStr.chars s)).

(** A string that [repr] shows as it is between single quotes: printable
    characters, no single quote and no backslash. *)
Definition plain (s : string) : Prop :=
  Forall (λ c, PyStr.isprintable c = true ∧ c ≠ PyStr.single_quote
               ∧ c ≠ PyStr.backslash) (PyStr.chars s).

(** Every name and every phone of the contacts is a token. *)
Definition entries_are_tokens (contacts : PyDict.dict) : Prop :=
  Forall (λ kv, token kv.1 ∧ token kv.2) contacts.

(** * Properties of the address book *)

Section address_book.
Import assistant_bot_cli.

Lemma len_chars (s : string) : PyStr.len s = length (PyStr.chars s).
Proof.
  unfold PyStr.len, PyStr.chars.
  induction s as [|c s IH]; simpl; [done | by rewrite IH].
Qed.

Lemma isdigit_Forall (s : string) :
  PyStr.isdigit s = true ↔
  PyStr.chars s ≠ [] ∧ Forall (λ c, PyStr.isdigit_char c = true) (PyStr.chars s).
Proof.
  unfold PyStr.isdigit.
  destruct (PyStr.chars s) as [|c cs] eqn:E.
  - split; [done | by intros [? _]].
  - rewrite forallb_forall, Forall_forall.
    split.
    + intros H. split; [done |]. intros x Hx. apply H. by apply list_elem_of_In.
    + intros [_ H] x Hx. apply H. by apply list_elem_of_In.
Qed.

Lemma Phone_init_accepts (s : string) :
  ten_isdigit s → Phone_init s = inr {| value := s |}.
Proof.
  intros [Hlen Hall]. unfold Phone_init.
  assert (PyStr.isdigit s = true) as ->.
  { apply isdigit_Forall. split; [|done].
    intros E. by rewrite E in Hlen. }
  rewrite len_chars, bool_decide_eq_false_2; [done |].
  intros H. by apply H.
Qed.

Lemma Phone_init_rejects (s : string) :
  ¬ ten_isdigit s →
  Phone_init s = inl (ValueError "Phone number must be 10 digits").
Proof.
  intros Hn. unfold Phone_init.
  destruct (PyStr.isdigit s) eqn:Hd; [|done]. simpl.
  rewrite bool_decide_eq_true_2; [done |].
  rewrite len_chars. intros Hlen. apply Hn.
  apply isdigit_Forall in Hd as [_ Hd]. by split.
Qed.

Lemma decimal_digit_isdigit (c : ascii) :
  c ∈ PyStr.chars "0123456789" → PyStr.isdigit_char c = true.
Proof.
  intros H. simpl in H.
  repeat (apply elem_of_cons in H as [-> | H]; [done |]).
  by apply elem_of_nil in H.
Qed.

Lemma ascii_isdigit_decimal (c : ascii) :
  (PyStr.ord c < 128)%N → PyStr.isdigit_char c = true →
  c ∈ PyStr.chars "0123456789".
Proof.
  intros Hc Hd.
  destruct c as [[] [] [] [] [] [] [] []];
    first [ discriminate Hc | discriminate Hd
          | by apply (bool_decide_unpack _) ].
Qed.

Lemma spec_ten_decimal_digits_ten_isdigit (s : string) :
  spec_ten_decimal_digits s → ten_isdigit s.
Proof.
  intros [Hlen Hall]. split; [done |].
  eapply Forall_impl; [exact Hall |]. apply decimal_digit_isdigit.
Qed.

(** C4: [Phone.__init__] means to accept ten digits only, as its docstring
    and its error message say, and tests them with [str.isdigit]: ten
    superscript twos pass that test and the phone is constructed, although
    they are no decimal digits. *)
Lemma C4_superscript_digits_accepted :
  Phone_init superscript_twos = inr {| value := superscript_twos |} ∧
  ¬ spec_ten_decimal_digits superscript_twos.
Proof.
  split; [done |].
  intros [_ H]. apply Forall_cons_1 in H as [H _].
  revert H. by apply (bool_decide_unpack _).
Qed.

(** The test of [Phone.__init__] as it is written: the construction
    succeeds exactly on ten characters that all pass [str.isdigit] and
    raises the [ValueError] otherwise; ten decimal digits are always
    accepted, and on strings of ASCII characters nothing else is.  From
    "12345", "12345678901" and "12a4567890" the construction fails and from
    "1234567890" it succeeds. *)
Lemma Phone_init_test_as_written :
  (∀ s : string,
     (Phone_init s = inr {| value := s |} ↔ ten_isdigit s) ∧
     (Phone_init s = inl (ValueError "Phone number must be 10 digits")
        ↔ ¬ ten_isdigit s) ∧
     (spec_ten_decimal_digits s → Phone_init s = inr {| value := s |}) ∧
     (Forall (λ c, (PyStr.ord c < 128)%N) (PyStr.chars s) →
        Phone_init s = inr {| value := s |} ↔ spec_ten_decimal_digits s)) ∧
  Phone_init "12345" = inl (ValueError "Phone number must be 10 digits") ∧
  Phone_init "12345678901" = inl (ValueError "Phone number must be 10 digits") ∧
  Phone_init "12a4567890" = inl (ValueError "Phone number must be 10 digits") ∧
  Phone_init "1234567890" = inr {| value := "1234567890" |}.
Proof.
  split; [| by repeat split].
  intros s.
  assert (Phone_init s = inr {| value := s |} ↔ ten_isdigit s) as Hok.
  { split; [| apply Phone_init_accepts].
    intros H. destruct (decide (length (PyStr.chars s) = 10)) as [Hl | Hl].
    - split; [done |].
      unfold Phone_init in H.
      destruct (PyStr.isdigit s) eqn:Hd; [| done].
      by apply isdigit_Forall in Hd as [_ Hd].
    - rewrite Phone_init_rejects in H; [done |]. by intros [? _]. }
  split_and!.
  - done.
  - split; [| apply Phone_init_rejects].
    intros H Hten. apply Hok in Hten. congruence.
  - intros H. by apply Phone_init_accepts, spec_ten_decimal_digits_ten_isdigit.
  - intros Hascii. rewrite Hok. split.
    + intros [Hlen Hall]. split; [done |].
      apply Forall_forall. intros c Hc.
      apply ascii_isdigit_decimal.
      * by eapply Forall_forall in Hascii.
      * by eapply Forall_forall in Hall.
    + apply spec_ten_decimal_digits_ten_isdigit.
Qed.

(** What [edit_phone] does when [old] is among the phones: the first phone
    with that value gets the value [new], whatever [new] is, and the phones
    before and after it stay as they are. *)
Lemma edit_phone_replaces_first (r : Record) (old new : string) :
  old ∈ (value <$> phones r) →
  ∃ before p after,
    phones r = before ++ p :: after ∧
    value p = old ∧
    (old ∉ value <$> before) ∧
    edit_phone old new r =
      Return () {| name := name r;
                   phones := before ++ {| value := new |} :: after |}.
Proof.
  destruct r as [n ps]. unfold edit_phone, mbind, M_bind, get, put. simpl.
  induction ps as [|p ps IH]; intros Hin; [by apply elem_of_nil in Hin |].
  simpl. destruct (decide (value p = old)) as [Heq | Hne].
  - exists [], p, ps. split_and!; [done | done | apply not_elem_of_nil | done].
  - rewrite fmap_cons in Hin. apply elem_of_cons in Hin as [? | Hin]; [done |].
    destruct (IH Hin) as (before & q & after & -> & Hq & Hbefore & Hrun).
    exists (p :: before), q, after. split_and!; [done | done | |].
    + rewrite fmap_cons. by apply not_elem_of_cons.
    + destruct (edit_phone_loop old new (before ++ q :: after)); [| done].
      simpl. by simplify_eq.
Qed.

(** C2: [edit_phone] stores a new value that [Phone.__init__] rejects.  The
    record of John holds "1234567890" and "5555555555"; editing the first
    into "abc" returns and leaves "abc" in the list. *)
Theorem C2_edit_phone_stores_unvalidated :
  Phone_init "abc" = inl (ValueError "Phone number must be 10 digits") ∧
  phones john_record = [{| value := "1234567890" |}; {| value := "5555555555" |}] ∧
  edit_phone "1234567890" "abc" john_record =
    Return () {| name := {| value := "John" |};
                 phones := [{| value := "abc" |}; {| value := "5555555555" |}] |}.
Proof. by split_and!. Qed.

(** C5: when no phone of the record has the value [old], [edit_phone old
    new] raises the [ValueError] "Phone not found", for every [new], and
    leaves the record as it was. *)
Theorem C5_edit_phone_not_found (r : Record) (old new : string) :
  old ∉ (value <$> phones r) →
  edit_phone old new r = Raise (ValueError "Phone not found") r.
Proof.
  intros Hnot. unfold edit_phone, mbind, M_bind, get. simpl.
  assert (edit_phone_loop old new (phones r) = None) as ->; [| done].
  induction (phones r) as [|p ps IH]; [done |].
  rewrite fmap_cons in Hnot. apply not_elem_of_cons in Hnot as [Hp Hps].
  simpl. destruct (decide (value p = old)); [done |].
  by rewrite IH.
Qed.

Lemma C5_edit_phone_not_found_witness :
  edit_phone "0000000000" "1112223333" john_record =
    Raise (ValueError "Phone not found") john_record.
Proof.
  apply (C5_edit_phone_not_found john_record "0000000000" "1112223333").
  by apply (bool_decide_unpack _).
Defined.

(** C7: [remove_phone v] returns; the phones left are the phones whose
    value differs from [v], in their original order, so every phone with
    the value [v] is gone however often it occurred; when [v] does not
    occur the record is unchanged. *)
Theorem C7_remove_phone_removes_all (r : Record) (v : string) :
  ∃ r',
    remove_phone v r = Return () r' ∧
    name r' = name r ∧
    phones r' `sublist_of` phones r ∧
    (∀ p, p ∈ phones r' ↔ p ∈ phones r ∧ value p ≠ v) ∧
    length (phones r) =
      length (phones r') + length (filter (λ p, value p = v) (phones r)) ∧
    (v ∉ (value <$> phones r) → r' = r).
Proof.
  eexists. split; [reflexivity |]. simpl. split_and!.
  - done.
  - apply sublist_filter.
  - intros p. rewrite list_elem_of_filter. tauto.
  - induction (phones r) as [|p ps IH]; [done |].
    rewrite !filter_cons. destruct (decide (value p = v)) as [Heq | Hne].
    + rewrite decide_False by (intros H; by apply H).
      cbn [length]. rewrite Nat.add_succ_r. f_equal. exact IH.
    + rewrite decide_True by done. cbn [length plus]. f_equal. exact IH.
  - intros Hnot. destruct r as [n ps]. simpl in *. f_equal.
    induction ps as [|p ps IH]; [done |].
    rewrite fmap_cons in Hnot. apply not_elem_of_cons in Hnot as [Hp Hps].
    rewrite filter_cons, decide_True by done. f_equal. by apply IH.
Qed.

(** C6: after [add_record r], [find] on the name of [r] returns [r], a
    record with that name; [find] on a name that is not in the book returns
    [None] and raises nothing. *)
Theorem C6_add_record_then_find (book : gmap string Record) (r : Record) :
  (∃ book' r',
     add_record r book = Return () book' ∧
     find (value (name r)) book' = Return (Some r') book' ∧
     r' = r ∧ value (name r') = value (name r)) ∧
  (∀ n : string, n ∉ dom book → find n book = Return None book).
Proof.
  split.
  - eexists _, r. split; [reflexivity |].
    unfold find, mbind, M_bind, get, dict_get. simpl.
    by rewrite lookup_insert_eq.
  - intros n Hn. apply not_elem_of_dom in Hn.
    unfold find, mbind, M_bind, get, dict_get. simpl. by rewrite Hn.
Qed.

(** C8: [delete n] returns; afterwards the book has no entry under [n],
    the entries under the other names are as before, and when [n] was
    absent the book is unchanged. *)
Theorem C8_delete_removes_or_noop (book : gmap string Record) (n : string) :
  ∃ book' : gmap string Record,
    delete n book = Return () book' ∧
    book' !! n = None ∧
    (∀ n', n' ≠ n → book' !! n' = book !! n') ∧
    (n ∉ dom book → book' = book).
Proof.
  unfold delete, mbind, M_bind, get, put. simpl.
  case_bool_decide as Hin.
  - eexists. split; [reflexivity |]. split_and!.
    + apply lookup_delete_eq.
    + intros n' Hne. by apply lookup_delete_ne.
    + done.
  - exists book. split; [reflexivity |]. split_and!.
    + by apply not_elem_of_dom.
    + done.
    + done.
Qed.

End address_book.

(** * Properties of the dispatcher *)

Section dispatcher.
Import PyDict assistant_bot.

Lemma lower_char_letter (c v : ascii) :
  v ∈ lower_case_letters → PyStr.lower_char c = v ↔ ascii_fold c = ascii_fold v.
Proof. revert c v. apply (bool_decide_unpack _). by vm_compute. Qed.

(** Against a word of lower-case letters, comparing [tok.lower()] is
    comparing without regard to case. *)
Lemma lower_eq_ignoring_case (tok verb : string) :
  Forall (λ v, v ∈ lower_case_letters) (PyStr.chars verb) →
  PyStr.lower tok = verb ↔ spec_same_ignoring_case tok verb.
Proof.
  unfold spec_same_ignoring_case, PyStr.chars.
  revert verb. induction tok as [|c tok IH]; intros [|v verb] Hv; simpl; try done.
  apply Forall_cons_1 in Hv as [Hv1 Hv2].
  split; intros [= H1 H2]; f_equal;
    solve [ by apply lower_char_letter | by apply IH ].
Qed.

Lemma verbs_lower_case (verb : string) :
  verb ∈ verbs → Forall (λ v, v ∈ lower_case_letters) (PyStr.chars verb).
Proof.
  intros H. unfold verbs in H.
  repeat (apply elem_of_cons in H as [-> | H];
          [by apply (bool_decide_unpack _) |]).
  by apply elem_of_nil in H.
Qed.

Lemma lower_eq_verb (tok verb : string) :
  verb ∈ verbs → PyStr.lower tok = verb ↔ spec_same_ignoring_case tok verb.
Proof. intros H. by apply lower_eq_ignoring_case, verbs_lower_case. Qed.

Lemma append_char_nonempty (tok : string) (c : ascii) : tok +:+ String c "" ≠ "".
Proof. by destruct tok. Qed.

Lemma split_go_nil (tok s : string) :
  PyStr.split_go tok s = [] ↔ tok = "" ∧ blank s.
Proof.
  unfold blank, PyStr.chars. revert tok.
  induction s as [|c s IH]; intros tok; simpl.
  - case_decide; split; try done. by intros [? _].
  - rewrite Forall_cons. destruct (PyStr.isspace c) eqn:Hc.
    + case_decide as Ht; simpl.
      * rewrite IH. split; [by intros [_ ?] | by intros [_ [_ ?]]].
      * split; [done | by intros [? _]].
    + rewrite IH. split.
      * intros [H _]. by apply append_char_nonempty in H.
      * by intros [_ [? _]].
Qed.

Lemma split_nil_blank (line : string) : PyStr.split line = [] ↔ blank line.
Proof.
  unfold PyStr.split. rewrite split_go_nil.
  split; [by intros [_ ?] | done].
Qed.

(** A line without a token makes [parse_input] raise, and nothing around
    the call in [main] catches it. *)
Lemma blank_line_crashes (line : string) (contacts : dict) :
  blank line →
  loop_body line contacts =
    Crash (ValueError "not enough values to unpack (expected at least 1, got 0)").
Proof.
  intros H. apply split_nil_blank in H.
  unfold loop_body, parse_input. by rewrite H.
Qed.

(** A decorated handler returns, whatever the handler does. *)
Lemma input_error_returns func (args : list string) (contacts : dict) :
  ∃ msg contacts', input_error func args contacts = Return msg contacts'.
Proof.
  unfold input_error.
  destruct (func args contacts) as [r c | [m | k | m] c]; eauto.
Qed.

Lemma print_result_input_error func (args : list string) (contacts : dict) :
  ∃ msg contacts',
    print_result (input_error func args contacts) = Continue msg contacts'.
Proof.
  destruct (input_error_returns func args contacts) as (msg & c & ->).
  by exists msg, c.
Qed.

(** On a line with a token the body of the loop prints one message and
    raises nothing: it ends the loop on [close] and [exit] and goes on to
    the next line otherwise. *)
Lemma loop_body_token_no_crash (line : string) (contacts : dict) :
  ¬ blank line →
  ∃ cmd args,
    parse_input line = inr (cmd, args) ∧
    ((cmd ∈ ["close"; "exit"] ∧ loop_body line contacts = Break "Good bye!") ∨
     ((cmd ∉ ["close"; "exit"]) ∧
      ∃ msg contacts', loop_body line contacts = Continue msg contacts')).
Proof.
  intros Hnb. rewrite <- split_nil_blank in Hnb.
  unfold loop_body, parse_input.
  destruct (PyStr.split line) as [|tok args]; [done |].
  exists (PyStr.lower tok), args. split; [done |].
  case_bool_decide as Hexit; [by left | right].
  split; [done |].
  repeat case_decide; eauto using print_result_input_error.
Qed.

(** X14: on lines that all have a token the loop never crashes: either it
    is still reading, having printed one message for each line, or it has
    exited. *)
Lemma main_loop_no_crash (lines : list string) (contacts : dict) (out : list string) :
  Forall (λ line, ¬ blank line) lines →
  (∃ contacts' out', main_loop lines contacts out = Reading contacts' out' ∧
                     length out' = length out + length lines) ∨
  (∃ out', main_loop lines contacts out = Exited out').
Proof.
  revert contacts out. induction lines as [|line lines IH]; intros contacts out Hall.
  - left. exists contacts, out. split; [done |]. simpl. lia.
  - apply Forall_cons_1 in Hall as [Hline Hall]. simpl.
    destruct (loop_body_token_no_crash line contacts Hline)
      as (cmd & args & _ & [[_ ->] | [_ (msg & c' & ->)]]).
    + right. by eexists.
    + destruct (IH c' (out ++ [msg]) Hall) as [(c'' & out' & -> & Hlen) | [out' ->]].
      * left. exists c'', out'. split; [done |].
        rewrite Hlen, length_app. simpl. lia.
      * right. by eexists.
Qed.

(** C1: the empty line is not recovered.  [parse_input] raises the
    [ValueError] of the unpacking, the call stands outside every decorated
    handler, and [main] ends with that exception before it reads the next
    line. *)
Theorem C1_empty_line_crashes_main :
  parse_input "" =
    inl (ValueError "not enough values to unpack (expected at least 1, got 0)") ∧
  loop_body "" [] =
    Crash (ValueError "not enough values to unpack (expected at least 1, got 0)") ∧
  main ["hello"; ""; "all"] =
    Crashed (ValueError "not enough values to unpack (expected at least 1, got 0)")
      ["Welcome to the assistant bot!"; "How can I help you?"].
Proof. by split_and!. Qed.

Lemma lookup_key_None (k : string) (d : dict) :
  lookup_key k d = None ↔ k ∉ keys d.
Proof.
  unfold keys. induction d as [|[k' v] d IH]; simpl.
  - split; [intros _; apply not_elem_of_nil | done].
  - rewrite not_elem_of_cons. case_decide as Hk.
    + split; [done | intros [? _]; by subst].
    + rewrite IH. split; [by intros ? | by intros [_ ?]].
Qed.

Lemma contains_false (k : string) (d : dict) :
  contains k d = false ↔ k ∉ keys d.
Proof.
  unfold contains. rewrite <- lookup_key_None, bool_decide_eq_false.
  rewrite <- eq_None_not_Some. done.
Qed.

Lemma lookup_key_setitem (k v : string) (d : dict) :
  lookup_key k (setitem k v d) = Some v.
Proof.
  induction d as [|[k' v'] d IH]; simpl.
  - by rewrite decide_True.
  - case_decide as Hk; simpl.
    + by rewrite decide_True.
    + by rewrite decide_False.
Qed.

(** C3, as the claim states it, fails: [add John abc] stores "abc", which
    is no string of ten decimal digits, and reports success. *)
Lemma C3_add_stores_invalid_phone :
  ¬ spec_ten_decimal_digits "abc" ∧
  loop_body "add John abc" [] = Continue "Contact added." [("John", "abc")].
Proof.
  split; [| done]. intros [Hlen _]. discriminate Hlen.
Qed.

(** C3, amended: an [add] command with a name and a phone stores the phone
    under the name as it was typed, whatever its format, and answers
    "Contact added.". *)
Theorem C3_add_stores_phone_as_given
    (line tok n phone : string) (contacts : dict) :
  PyStr.split line = [tok; n; phone] →
  spec_same_ignoring_case tok "add" →
  add_contact [n; phone] contacts =
    Return "Contact added." (setitem n phone contacts) ∧
  loop_body line contacts =
    Continue "Contact added." (setitem n phone contacts) ∧
  lookup_key n (setitem n phone contacts) = Some phone.
Proof.
  intros Hsplit Hadd. split_and!.
  - done.
  - apply lower_eq_verb in Hadd; [| by apply (bool_decide_unpack _)].
    unfold loop_body, parse_input. by rewrite Hsplit, Hadd.
  - apply lookup_key_setitem.
Qed.

Lemma C3_add_stores_phone_as_given_witness :
  loop_body "ADD John abc" [("Ann", "1")] =
    Continue "Contact added." [("Ann", "1"); ("John", "abc")].
Proof.
  apply (C3_add_stores_phone_as_given "ADD John abc" "ADD" "John" "abc"
           [("Ann", "1")]); reflexivity.
Defined.

(** C9: on a line with a first token, the token is compared with the verbs
    without regard to case: [hello], [add], [change], [phone] and [all]
    select their operation, [exit] and [close] end the loop, and a token
    that matches no verb is answered with "Invalid command.", the contacts
    left as they were. *)
Theorem C9_dispatch_ignores_case
    (line tok : string) (args : list string) (contacts : dict) :
  PyStr.split line = tok :: args →
  (spec_same_ignoring_case tok "hello" →
     loop_body line contacts = Continue "How can I help you?" contacts) ∧
  (spec_same_ignoring_case tok "add" →
     loop_body line contacts = print_result (add_contact args contacts)) ∧
  (spec_same_ignoring_case tok "change" →
     loop_body line contacts = print_result (change_contact args contacts)) ∧
  (spec_same_ignoring_case tok "phone" →
     loop_body line contacts = print_result (show_phone args contacts)) ∧
  (spec_same_ignoring_case tok "all" →
     loop_body line contacts = Continue (show_all contacts) contacts) ∧
  (spec_same_ignoring_case tok "exit" ∨ spec_same_ignoring_case tok "close" →
     loop_body line contacts = Break "Good bye!") ∧
  ((∀ verb, verb ∈ verbs → ¬ spec_same_ignoring_case tok verb) →
     loop_body line contacts = Continue "Invalid command." contacts).
Proof.
  intros Hsplit.
  assert (∀ verb, verb ∈ verbs →
            spec_same_ignoring_case tok verb → PyStr.lower tok = verb) as Hverb.
  { intros verb Hin. by apply lower_eq_verb. }
  unfold loop_body, parse_input. rewrite Hsplit.
  split_and!.
  - intros H. apply Hverb in H as ->; [done | by apply (bool_decide_unpack _)].
  - intros H. apply Hverb in H as ->; [done | by apply (bool_decide_unpack _)].
  - intros H. apply Hverb in H as ->; [done | by apply (bool_decide_unpack _)].
  - intros H. apply Hverb in H as ->; [done | by apply (bool_decide_unpack _)].
  - intros H. apply Hverb in H as ->; [done | by apply (bool_decide_unpack _)].
  - intros [H | H];
      (apply Hverb in H as ->; [done | by apply (bool_decide_unpack _)]).
  - intros Hnone.
    assert (∀ verb, verb ∈ verbs → PyStr.lower tok ≠ verb) as Hne.
    { intros verb Hin Heq. apply (Hnone verb Hin). by apply lower_eq_verb. }
    rewrite bool_decide_eq_false_2.
    2:{ intros Hin. apply elem_of_cons in Hin as [Hin | Hin].
        - by apply (Hne "close"); [apply (bool_decide_unpack _) |].
        - apply list_elem_of_singleton in Hin.
          by apply (Hne "exit"); [apply (bool_decide_unpack _) |]. }
    rewrite !decide_False; [done | ..];
      intros Heq; by eapply Hne; [| exact Heq]; apply (bool_decide_unpack _).
Qed.

Lemma C9_dispatch_ignores_case_witness :
  loop_body "Hello there" [] = Continue "How can I help you?" [] ∧
  loop_body "eXit" [] = Break "Good bye!" ∧
  loop_body "helo" [] = Continue "Invalid command." [].
Proof.
  split_and!.
  - apply (C9_dispatch_ignores_case "Hello there" "Hello" ["there"] []);
      reflexivity.
  - apply (C9_dispatch_ignores_case "eXit" "eXit" [] []);
      [reflexivity | by left].
  - apply (C9_dispatch_ignores_case "helo" "helo" [] []); [reflexivity |].
    intros verb Hin. unfold verbs in Hin. unfold spec_same_ignoring_case.
    repeat (apply elem_of_cons in Hin as [-> | Hin];
            [by apply (bool_decide_unpack _) |]).
    by apply elem_of_nil in Hin.
Defined.

(** C10: for a name that is not a key of the contacts, [show_phone]
    returns "Contact not found.", raises nothing and leaves the contacts as
    they were; so does the [phone] command on such a name. *)
Theorem C10_show_phone_unknown_name
    (contacts : dict) (n : string) (rest : list string) :
  n ∉ keys contacts →
  show_phone (n :: rest) contacts = Return "Contact not found." contacts ∧
  (∀ line tok : string,
     PyStr.split line = tok :: n :: rest →
     spec_same_ignoring_case tok "phone" →
     loop_body line contacts = Continue "Contact not found." contacts).
Proof.
  intros Hn. apply contains_false in Hn.
  assert (show_phone (n :: rest) contacts =
            Return "Contact not found." contacts) as Hshow.
  { unfold show_phone, input_error, show_phone_body, mbind, M_bind, get.
    simpl. by rewrite Hn. }
  split; [done |].
  intros line tok Hsplit Hphone.
  apply lower_eq_verb in Hphone; [| by apply (bool_decide_unpack _)].
  unfold loop_body, parse_input. rewrite Hsplit, Hphone. simpl.
  by rewrite Hshow.
Qed.

Lemma C10_show_phone_unknown_name_witness :
  show_phone ["Bob"] [("Ann", "1234567890")] =
    Return "Contact not found." [("Ann", "1234567890")].
Proof.
  apply (C10_show_phone_unknown_name [("Ann", "1234567890")] "Bob" []).
  by apply (bool_decide_unpack _).
Defined.

End dispatcher.

(** * Further properties of the address book *)

Section address_book_more.
Import assistant_bot_cli.

Lemma add_phone_valid (r : Record) (s : string) :
  ten_isdigit s →
  add_phone s r =
    Return () {| name := name r; phones := phones r ++ [{| value := s |}] |}.
Proof.
  intros Hs. unfold add_phone, mbind, M_bind, lift.
  by rewrite (Phone_init_accepts s Hs).
Qed.

Lemma add_phone_invalid (r : Record) (s : string) :
  ¬ ten_isdigit s →
  add_phone s r = Raise (ValueError "Phone number must be 10 digits") r.
Proof.
  intros Hs. unfold add_phone, mbind, M_bind, lift.
  by rewrite (Phone_init_rejects s Hs).
Qed.

Lemma ten_isdigit_dec (s : string) : Decision (ten_isdigit s).
Proof.
  unfold ten_isdigit. apply and_dec; [apply _ |].
  apply Forall_dec. intros c. apply _.
Defined.

(** X1: [add_phone] appends a phone that passes the validation at the end
    of the list and leaves name and earlier phones alone; for any other
    string it raises the [ValueError] and the record is unchanged. *)
Theorem add_phone_appends_or_rejects (r : Record) (s : string) :
  (ten_isdigit s ∧
   add_phone s r =
     Return () {| name := name r; phones := phones r ++ [{| value := s |}] |})
  ∨
  (¬ ten_isdigit s ∧
   add_phone s r = Raise (ValueError "Phone number must be 10 digits") r).
Proof.
  destruct (ten_isdigit_dec s) as [Hs | Hs].
  - left. split; [done | by apply add_phone_valid].
  - right. split; [done | by apply add_phone_invalid].
Qed.

Lemma find_phone_loop_Some (v : string) (ps : list Phone) :
  v ∈ value <$> ps → find_phone_loop v ps = Some v.
Proof.
  induction ps as [|p ps IH]; intros Hin; [by apply elem_of_nil in Hin |].
  simpl. case_decide as Hp; [by rewrite Hp |].
  rewrite fmap_cons in Hin. apply elem_of_cons in Hin as [Hin | Hin]; [done |].
  by apply IH.
Qed.

Lemma find_phone_loop_None (v : string) (ps : list Phone) :
  v ∉ value <$> ps → find_phone_loop v ps = None.
Proof.
  induction ps as [|p ps IH]; intros Hnot; [done |].
  rewrite fmap_cons in Hnot. apply not_elem_of_cons in Hnot as [Hp Hps].
  simpl. rewrite decide_False by done. by apply IH.
Qed.

Lemma find_phone_present (r : Record) (v : string) :
  v ∈ phone_values r → find_phone v r = Return (Some v) r.
Proof.
  intros Hin. unfold find_phone, mbind, M_bind, get, mret, M_ret.
  by rewrite (find_phone_loop_Some _ _ Hin).
Qed.

Lemma find_phone_absent (r : Record) (v : string) :
  v ∉ phone_values r → find_phone v r = Return None r.
Proof.
  intros Hnot. unfold find_phone, mbind, M_bind, get, mret, M_ret.
  by rewrite (find_phone_loop_None _ _ Hnot).
Qed.

(** X2: [find_phone v] returns [v] when some phone of the record has that
    value and [None] when none has; it raises nothing and never changes the
    record. *)
Theorem find_phone_found_iff (r : Record) (v : string) :
  (find_phone v r = Return (Some v) r ↔ v ∈ phone_values r) ∧
  (find_phone v r = Return None r ↔ v ∉ phone_values r).
Proof.
  destruct (decide (v ∈ phone_values r)) as [Hin | Hnot].
  - rewrite (find_phone_present r v Hin). split; split; done.
  - rewrite (find_phone_absent r v Hnot). split; split; done.
Qed.

(** X3: a phone added with [add_phone] is found by [find_phone] right
    after. *)
Theorem add_phone_then_find_phone (r : Record) (s : string) :
  ten_isdigit s →
  (add_phone s;; find_phone s) r =
    Return (Some s)
      {| name := name r; phones := phones r ++ [{| value := s |}] |}.
Proof.
  intros Hs. unfold mbind at 1. unfold M_bind at 1.
  rewrite (add_phone_valid r s Hs).
  apply find_phone_present. unfold phone_values. simpl.
  rewrite fmap_app. apply elem_of_app. right. by apply list_elem_of_singleton.
Qed.

Lemma add_phone_then_find_phone_witness :
  (add_phone "1112223333";; find_phone "1112223333") john_record =
    Return (Some "1112223333")
      {| name := {| value := "John" |};
         phones := [{| value := "1234567890" |}; {| value := "5555555555" |};
                    {| value := "1112223333" |}] |}.
Proof.
  apply (add_phone_then_find_phone john_record "1112223333").
  split; [reflexivity | by repeat constructor].
Defined.

(** X4: when every phone of a record is valid, it is still so after
    [add_phone] and after [remove_phone], whatever their argument and
    whether or not [add_phone] raises. *)
Theorem valid_phones_kept (r : Record) (s : string) :
  valid_phones r →
  valid_phones (final_state (add_phone s r)) ∧
  valid_phones (final_state (remove_phone s r)).
Proof.
  intros Hr. split.
  - destruct (ten_isdigit_dec s) as [Hs | Hs].
    + rewrite (add_phone_valid r s Hs).
      unfold valid_phones. simpl. apply Forall_app. split; [done |].
      by apply Forall_singleton.
    + by rewrite (add_phone_invalid r s Hs).
  - unfold valid_phones, remove_phone, modify. simpl.
    apply Forall_forall. intros p Hp.
    apply list_elem_of_filter in Hp as [_ Hp].
    unfold valid_phones in Hr. by eapply Forall_forall in Hr.
Qed.

Lemma valid_phones_kept_witness :
  valid_phones john_record ∧
  phone_values (final_state (add_phone "1234567890" john_record)) =
    ["1234567890"; "5555555555"; "1234567890"] ∧
  phone_values (final_state (remove_phone "1234567890" john_record)) =
    ["5555555555"] ∧
  valid_phones (final_state (add_phone "1234567890" john_record)) ∧
  valid_phones (final_state (remove_phone "1234567890" john_record)).
Proof.
  assert (valid_phones john_record) as Hjohn.
  { unfold valid_phones, ten_isdigit.
    repeat (apply Forall_cons; split;
            [split; [reflexivity | by repeat constructor] |]).
    apply Forall_nil_2. }
  split_and!; [exact Hjohn | reflexivity | reflexivity | |];
    by apply (valid_phones_kept john_record "1234567890").
Defined.

Lemma filter_other_values (v : string) (ps : list Phone) :
  v ∉ value <$> ps → filter (λ p, value p ≠ v) ps = ps.
Proof.
  induction ps as [|p ps IH]; intros Hnot; [done |].
  rewrite fmap_cons in Hnot. apply not_elem_of_cons in Hnot as [Hp Hps].
  rewrite filter_cons, decide_True by done. f_equal. by apply IH.
Qed.

(** X5: when [old] is among the phones, [edit_phone old new] returns; the
    name and the number of phones are as before, the value at the first
    position holding [old] becomes [new] and every other position keeps its
    value; if the phones were valid and [new] is valid they are valid
    after. *)
Theorem edit_phone_changes_first_only (r : Record) (old new : string) :
  old ∈ phone_values r →
  ∃ (r' : Record) (i : nat),
    edit_phone old new r = Return () r' ∧
    name r' = name r ∧
    length (phones r') = length (phones r) ∧
    phone_values r !! i = Some old ∧
    (∀ j, j < i → phone_values r !! j ≠ Some old) ∧
    phone_values r' = <[i := new]> (phone_values r) ∧
    (valid_phones r → ten_isdigit new → valid_phones r').
Proof.
  intros Hin.
  destruct (edit_phone_replaces_first r old new Hin)
    as (before & p & after & Hps & Hp & Hbefore & Hrun).
  eexists _, (length before). split; [exact Hrun |].
  unfold phone_values, valid_phones. simpl. rewrite Hps.
  split_and!.
  - done.
  - by rewrite !length_app.
  - rewrite fmap_app, fmap_cons, Hp.
    rewrite lookup_app_r by (by rewrite length_fmap).
    by rewrite length_fmap, Nat.sub_diag.
  - intros j Hj Hlook.
    rewrite fmap_app, lookup_app_l in Hlook by (by rewrite length_fmap).
    apply Hbefore. by eapply list_elem_of_lookup_2.
  - rewrite !fmap_app, !fmap_cons. simpl.
    rewrite insert_app_r_alt by (by rewrite length_fmap).
    by rewrite length_fmap, Nat.sub_diag.
  - intros Hvalid Hnew.
    apply Forall_app in Hvalid as [Hb Ha].
    apply Forall_cons in Ha as [_ Ha].
    apply Forall_app. split; [done |]. by apply Forall_cons.
Qed.

Lemma edit_phone_changes_first_only_witness :
  ∃ (r' : Record) (i : nat),
    edit_phone "5555555555" "1112223333" john_record = Return () r' ∧
    name r' = name john_record ∧
    length (phones r') = length (phones john_record) ∧
    phone_values john_record !! i = Some "5555555555" ∧
    (∀ j, j < i → phone_values john_record !! j ≠ Some "5555555555") ∧
    phone_values r' = <[i := "1112223333"]> (phone_values john_record) ∧
    (valid_phones john_record → ten_isdigit "1112223333" → valid_phones r').
Proof.
  apply (edit_phone_changes_first_only john_record "5555555555" "1112223333").
  apply list_elem_of_further, list_elem_of_here.
Defined.

(** X6: adding a valid phone that the record did not have and removing it
    again gives the record back as it was. *)
Theorem add_phone_remove_phone_restores (r : Record) (s : string) :
  ten_isdigit s →
  s ∉ phone_values r →
  (add_phone s;; remove_phone s) r = Return () r.
Proof.
  intros Hs Hnot. unfold mbind, M_bind.
  rewrite (add_phone_valid r s Hs).
  unfold remove_phone, modify. simpl. f_equal.
  destruct r as [n ps]. simpl in *. f_equal.
  rewrite filter_app, filter_cons. simpl.
  rewrite decide_False by (intros H; by apply H).
  rewrite filter_nil, app_nil_r.
  exact (filter_other_values s ps Hnot).
Qed.

Lemma add_phone_remove_phone_restores_witness :
  (add_phone "1112223333";; remove_phone "1112223333") john_record =
    Return () john_record.
Proof.
  apply (add_phone_remove_phone_restores john_record "1112223333").
  - split; [reflexivity | by repeat constructor].
  - by apply (bool_decide_unpack _).
Defined.

(** X7: after [remove_phone v], [find_phone v] returns [None], and a
    second [remove_phone v] changes nothing more. *)
Theorem remove_phone_then_absent (r : Record) (v : string) :
  (remove_phone v;; find_phone v) r =
    Return None (final_state (remove_phone v r)) ∧
  (remove_phone v;; remove_phone v) r = remove_phone v r.
Proof.
  assert (v ∉ phone_values (final_state (remove_phone v r))) as Hgone.
  { unfold phone_values. simpl. intros Hin.
    apply list_elem_of_fmap in Hin as (p & -> & Hp).
    apply list_elem_of_filter in Hp as [Hp _]. by apply Hp. }
  split.
  - unfold mbind at 1. unfold M_bind at 1. simpl.
    by apply find_phone_absent.
  - unfold mbind, M_bind, remove_phone, modify. simpl. do 2 f_equal.
    by apply filter_other_values.
Qed.

(** X8: a second [add_record] under the same name replaces the first
    record: the book is as if only the second had been added, and [find]
    returns the second. *)
Theorem add_record_overwrites (book : gmap string Record) (r1 r2 : Record) :
  value (name r1) = value (name r2) →
  (add_record r1;; add_record r2) book = add_record r2 book ∧
  (add_record r1;; add_record r2;; find (value (name r1))) book =
    Return (Some r2) (final_state (add_record r2 book)).
Proof.
  intros Hname.
  cbv [mbind M_bind mret M_ret add_record modify find get dict_get final_state].
  rewrite Hname, insert_insert_eq, lookup_insert_eq. done.
Qed.

Lemma add_record_overwrites_witness :
  (add_record (Record_init "John");; add_record john_record) ∅ =
    add_record john_record ∅ ∧
  (add_record (Record_init "John");; add_record john_record;; find "John") ∅ =
    Return (Some john_record) (final_state (add_record john_record ∅)).
Proof.
  apply (add_record_overwrites ∅ (Record_init "John") john_record).
  reflexivity.
Defined.

(** X9: [add_record r] changes the entry under the name of [r] only:
    [find] on any other name returns what it returned before. *)
Theorem add_record_keeps_other_names
    (book : gmap string Record) (r : Record) (n : string) :
  n ≠ value (name r) →
  ∃ found,
    find n book = Return found book ∧
    (add_record r;; find n) book =
      Return found (final_state (add_record r book)).
Proof.
  intros Hn.
  cbv [mbind M_bind mret M_ret add_record modify find get dict_get final_state].
  rewrite lookup_insert_ne by done. by eexists.
Qed.

Lemma add_record_keeps_other_names_witness :
  ∃ found,
    find "Jane" (final_state (add_record (Record_init "Jane") ∅)) =
      Return found (final_state (add_record (Record_init "Jane") ∅)) ∧
    (add_record john_record;; find "Jane")
      (final_state (add_record (Record_init "Jane") ∅)) =
      Return found
        (final_state
           (add_record john_record
              (final_state (add_record (Record_init "Jane") ∅)))).
Proof.
  apply (add_record_keeps_other_names
           (final_state (add_record (Record_init "Jane") ∅)) john_record "Jane").
  discriminate.
Defined.

(** X10: adding a record under a name the book did not have and deleting
    that name again gives the book back as it was. *)
Theorem add_record_delete_restores (book : gmap string Record) (r : Record) :
  value (name r) ∉ dom book →
  (add_record r;; delete (value (name r))) book = Return () book.
Proof.
  intros Hn. apply not_elem_of_dom in Hn.
  cbv [mbind M_bind mret M_ret add_record modify delete get put].
  rewrite bool_decide_eq_true_2.
  - by rewrite delete_insert_id.
  - apply elem_of_dom. rewrite lookup_insert_eq. by eexists.
Qed.

Lemma add_record_delete_restores_witness :
  (add_record john_record;; delete "John") ∅ = Return () ∅.
Proof.
  apply (add_record_delete_restores ∅ john_record).
  apply not_elem_of_dom. apply lookup_empty.
Defined.

End address_book_more.

(** * Further properties of the dispatcher *)

Section dispatcher_more.
Import PyDict assistant_bot.

Lemma append_cons (c : ascii) (s t : string) :
  String c s +:+ t = String c (s +:+ t).
Proof. reflexivity. Qed.

Lemma append_nil_r (s : string) : s +:+ "" = s.
Proof. induction s as [|c s IH]; [done |]. by rewrite append_cons, IH. Qed.

Lemma append_assoc (s t u : string) : (s +:+ t) +:+ u = s +:+ (t +:+ u).
Proof. induction s as [|c s IH]; [done |]. by rewrite !append_cons, IH. Qed.

Lemma chars_app (s t : string) :
  PyStr.chars (s +:+ t) = PyStr.chars s ++ PyStr.chars t.
Proof.
  unfold PyStr.chars. induction s as [|c s IH]; [done |].
  rewrite append_cons. simpl. by rewrite IH.
Qed.

Lemma chars_nil (s : string) : PyStr.chars s = [] → s = "".
Proof. by destruct s. Qed.

(** White space ends the token being read and starts a new split. *)
Lemma split_go_app_space (tok s1 : string) (c : ascii) (s2 : string) :
  PyStr.isspace c = true →
  PyStr.split_go tok (s1 +:+ String c s2) =
    PyStr.split_go tok s1 ++ PyStr.split s2.
Proof.
  intros Hc. revert tok. induction s1 as [|a s1 IH]; intros tok.
  - change ("" +:+ String c s2) with (String c s2). simpl. by rewrite Hc.
  - rewrite append_cons. simpl. destruct (PyStr.isspace a).
    + by rewrite IH, app_assoc.
    + by rewrite IH.
Qed.

Lemma split_go_no_space (acc t : string) :
  Forall (λ c, PyStr.isspace c = false) (PyStr.chars t) →
  PyStr.split_go acc t = if decide (acc +:+ t = "") then [] else [acc +:+ t].
Proof.
  unfold PyStr.chars. revert acc.
  induction t as [|a t IH]; intros acc Hall; simpl.
  - by rewrite append_nil_r.
  - apply Forall_cons in Hall as [Ha Hall]. rewrite Ha.
    rewrite (IH _ Hall). by rewrite append_assoc.
Qed.

Lemma split_token (t : string) : token t → PyStr.split t = [t].
Proof.
  intros [Hne Hall]. unfold PyStr.split.
  rewrite (split_go_no_space "" t Hall).
  change ("" +:+ t) with t. by rewrite decide_False.
Qed.

Lemma split_join_tokens (toks : list string) :
  Forall token toks → PyStr.split (PyStr.join " " toks) = toks.
Proof.
  induction toks as [|x [|y toks] IH]; intros Hall.
  - done.
  - apply Forall_cons in Hall as [Hx _]. by apply split_token.
  - apply Forall_cons in Hall as [Hx Hall].
    change (PyStr.join " " (x :: y :: toks))
      with (x +:+ String " " (PyStr.join " " (y :: toks))).
    unfold PyStr.split at 1.
    rewrite split_go_app_space by done.
    fold (PyStr.split x). by rewrite (split_token x Hx), (IH Hall).
Qed.

Lemma token_snoc (acc : string) (c : ascii) :
  acc = "" ∨ token acc → PyStr.isspace c = false → token (acc +:+ String c "").
Proof.
  intros Hacc Hc. split; [apply append_char_nonempty |].
  rewrite chars_app. apply Forall_app. split.
  - destruct Hacc as [-> | [_ H]]; [apply Forall_nil_2 | done].
  - by apply Forall_singleton.
Qed.

Lemma split_go_tokens (acc s : string) :
  acc = "" ∨ token acc → Forall token (PyStr.split_go acc s).
Proof.
  revert acc. induction s as [|c s IH]; intros acc Hacc; simpl.
  - case_decide; [apply Forall_nil_2 |].
    apply Forall_singleton. by destruct Hacc.
  - destruct (PyStr.isspace c) eqn:Hc.
    + apply Forall_app. split; [| apply IH; by left].
      case_decide; [apply Forall_nil_2 |].
      apply Forall_singleton. by destruct Hacc.
    + apply IH. right. by apply token_snoc.
Qed.

Lemma split_tokens (line : string) : Forall token (PyStr.split line).
Proof. apply split_go_tokens. by left. Qed.

Lemma lower_char_isspace (c : ascii) :
  PyStr.isspace (PyStr.lower_char c) = PyStr.isspace c.
Proof. revert c. apply (bool_decide_unpack _). vm_compute. exact I. Qed.

Lemma lower_char_idemp (c : ascii) :
  PyStr.lower_char (PyStr.lower_char c) = PyStr.lower_char c.
Proof. revert c. apply (bool_decide_unpack _). vm_compute. exact I. Qed.

Lemma lower_idemp (s : string) : PyStr.lower (PyStr.lower s) = PyStr.lower s.
Proof.
  induction s as [|c s IH]; [done |]. simpl. by rewrite lower_char_idemp, IH.
Qed.

Lemma lower_token (s : string) : token s → token (PyStr.lower s).
Proof.
  intros [Hne Hall]. split; [by destruct s |].
  unfold PyStr.chars in *. induction s as [|c s IH]; [done |].
  simpl in *. apply Forall_cons in Hall as [Hc Hall].
  apply Forall_cons. split; [by rewrite lower_char_isspace |].
  destruct s; [apply Forall_nil_2 | by apply IH].
Qed.

(** X11: what [parse_input] returns is clean: the command is a non-empty
    word without white space, already in lower case, and every argument is
    a non-empty word without white space. *)
Theorem parse_input_returns_tokens (line cmd : string) (args : list string) :
  parse_input line = inr (cmd, args) →
  token cmd ∧ PyStr.lower cmd = cmd ∧ Forall token args.
Proof.
  unfold parse_input. intros H.
  pose proof (split_tokens line) as Hall.
  destruct (PyStr.split line) as [|tok rest]; [done |].
  injection H as <- <-.
  apply Forall_cons in Hall as [Htok Hrest].
  split_and!; [by apply lower_token | apply lower_idemp | done].
Qed.

Lemma parse_input_returns_tokens_witness :
  token "add" ∧ PyStr.lower "add" = "add" ∧ Forall token ["John"; "123"].
Proof.
  apply (parse_input_returns_tokens "  ADD John   123 " "add" ["John"; "123"]).
  reflexivity.
Defined.

(** X12: [parse_input] undoes the joining of words with single spaces: the
    first word comes back in lower case as the command, the other words as
    the arguments. *)
Theorem parse_input_join (cmd : string) (args : list string) :
  token cmd → Forall token args →
  parse_input (PyStr.join " " (cmd :: args)) = inr (PyStr.lower cmd, args).
Proof.
  intros Hcmd Hargs. unfold parse_input.
  by rewrite split_join_tokens by (by apply Forall_cons).
Qed.

Lemma parse_input_join_witness :
  parse_input (PyStr.join " " ["Change"; "John"; "123"]) =
    inr ("change", ["John"; "123"]).
Proof.
  apply (parse_input_join "Change" ["John"; "123"]).
  - split; [done | by repeat constructor].
  - repeat constructor; done.
Defined.

(** X13: the body of the loop lets an exception escape exactly on the
    lines without a token, the empty line and the lines of white space. *)
Theorem loop_body_crashes_iff_blank (line : string) (contacts : dict) :
  (∃ e, loop_body line contacts = Crash e) ↔ blank line.
Proof.
  split.
  - intros [e He]. apply split_nil_blank.
    destruct (PyStr.split line) as [|tok rest] eqn:Hsplit; [done |].
    assert (¬ blank line) as Hnb.
    { rewrite <- split_nil_blank. by rewrite Hsplit. }
    destruct (loop_body_token_no_crash line contacts Hnb)
      as (cmd & args & _ & [[_ H] | [_ (msg & c' & H)]]); congruence.
  - intros Hb. eexists. by apply blank_line_crashes.
Qed.

Lemma main_loop_no_crash_witness :
  (∃ contacts' out',
     main_loop ["add John 1"; "phone John"] [] [] = Reading contacts' out' ∧
     length out' = length ([] : list string) + length ["add John 1"; "phone John"]) ∨
  (∃ out', main_loop ["add John 1"; "phone John"] [] [] = Exited out').
Proof.
  apply (main_loop_no_crash ["add John 1"; "phone John"] [] []).
  apply Forall_cons; split; [| apply Forall_singleton];
    (intros H; apply Forall_cons in H as [H _]; discriminate H).
Defined.

(** The loop reads its lines one after the other. *)
Lemma main_loop_app (l1 l2 : list string) (contacts : dict) (out : list string) :
  main_loop (l1 ++ l2) contacts out =
    match main_loop l1 contacts out with
    | Reading contacts' out' => main_loop l2 contacts' out'
    | ended => ended
    end.
Proof.
  revert contacts out. induction l1 as [|line l1 IH]; intros contacts out.
  - done.
  - simpl. destruct (loop_body line contacts); [apply IH | done | done].
Qed.

(** X15: a line whose first word is [exit] or [close], in any case of
    letters and whatever follows the word, ends the loop with "Good bye!"
    after what was printed before; the lines after it are never read,
    not even those that would crash the loop. *)
Theorem exit_ends_the_loop
    (lines more : list string) (line tok : string) (args : list string)
    (contacts contacts' : dict) (out out' : list string) :
  main_loop lines contacts out = Reading contacts' out' →
  PyStr.split line = tok :: args →
  spec_same_ignoring_case tok "exit" ∨ spec_same_ignoring_case tok "close" →
  main_loop (lines ++ line :: more) contacts out =
    Exited (out' ++ ["Good bye!"]).
Proof.
  intros Hrun Hsplit Hverb.
  rewrite main_loop_app, Hrun. simpl.
  assert (loop_body line contacts' = Break "Good bye!") as ->; [| done].
  unfold loop_body, parse_input. rewrite Hsplit.
  destruct Hverb as [H | H];
    (apply lower_eq_verb in H as ->; [done | by apply (bool_decide_unpack _)]).
Qed.

Lemma exit_ends_the_loop_witness :
  main_loop ["add John 1"] [] ["Welcome to the assistant bot!"] =
    Reading [("John", "1")] ["Welcome to the assistant bot!"; "Contact added."] ∧
  main_loop (["add John 1"] ++ "EXIT now" :: [""; "all"]) []
      ["Welcome to the assistant bot!"] =
    Exited (["Welcome to the assistant bot!"; "Contact added."] ++ ["Good bye!"]).
Proof.
  split; [reflexivity |].
  apply (exit_ends_the_loop ["add John 1"] [""; "all"] "EXIT now" "EXIT" ["now"]
           [] [("John", "1")]);
    [reflexivity | reflexivity | by left].
Defined.

Lemma add_contact_cases (args : list string) (contacts : dict) :
  add_contact args contacts =
    match args with
    | [n; phone] => Return "Contact added." (setitem n phone contacts)
    | _ => Return "Give me name and phone please." contacts
    end.
Proof. by destruct args as [|a [|b [|d l]]]. Qed.

Lemma change_contact_cases (args : list string) (contacts : dict) :
  change_contact args contacts =
    match args with
    | [n; phone] =>
        if contains n contacts
        then Return "Contact updated." (setitem n phone contacts)
        else Return ("Given key not found "
                       +:+ PyStr.repr ("Contact " +:+ n +:+ " not found."))
                    contacts
    | _ => Return "Give me name and phone please." contacts
    end.
Proof.
  destruct args as [|a [|b [|d l]]]; try done.
  unfold change_contact, input_error, change_contact_body, mbind, M_bind, get.
  simpl. by destruct (contains a contacts).
Qed.

Lemma show_phone_cases (n : string) (rest : list string) (contacts : dict) :
  show_phone (n :: rest) contacts =
    Return (default "Contact not found." (lookup_key n contacts)) contacts.
Proof.
  unfold show_phone, input_error, show_phone_body, mbind, M_bind, get,
    contains, defaultdict_getitem. simpl.
  destruct (lookup_key n contacts) as [v |] eqn:E.
  - rewrite bool_decide_eq_true_2 by eauto. by rewrite E.
  - rewrite bool_decide_eq_false_2; [done | by intros [??]].
Qed.

Lemma contains_true (k : string) (d : dict) :
  contains k d = true ↔ k ∈ keys d.
Proof.
  destruct (contains k d) eqn:E.
  - split; [intros _ | done].
    destruct (decide (k ∈ keys d)) as [? | Hn]; [done |].
    apply contains_false in Hn. congruence.
  - apply contains_false in E. split; [done | by intros ?].
Qed.

Lemma keys_setitem (n phone : string) (d : dict) :
  keys (setitem n phone d) = if decide (n ∈ keys d) then keys d else keys d ++ [n].
Proof.
  unfold keys. induction d as [|[k v] d IH]; [done |].
  cbn [setitem]. rewrite fmap_cons. cbn [fst].
  destruct (decide (k = n)) as [-> | Hk].
  - rewrite fmap_cons, decide_True; [done | apply list_elem_of_here].
  - rewrite fmap_cons, IH. cbn [fst].
    destruct (decide (n ∈ d.*1)) as [Hin | Hnot].
    + rewrite decide_True; [done | by apply list_elem_of_further].
    + rewrite decide_False; [done |].
      apply not_elem_of_cons. split; [by intros -> | done].
Qed.

Lemma lookup_key_setitem_ne (k n phone : string) (d : dict) :
  k ≠ n → lookup_key k (setitem n phone d) = lookup_key k d.
Proof.
  intros Hk. induction d as [|[k' v] d IH]; simpl.
  - by rewrite decide_False.
  - case_decide as Hk'; simpl.
    + subst. by rewrite !decide_False.
    + case_decide; [done | exact IH].
Qed.

(** X16: [add] and [change] with any number of arguments other than two
    answer "Give me name and phone please.", and [phone] without argument
    answers "Insufficient data provided."; the contacts are not touched. *)
Theorem wrong_argument_count_is_reported (args : list string) (contacts : dict) :
  length args ≠ 2 →
  add_contact args contacts =
    Return "Give me name and phone please." contacts ∧
  change_contact args contacts =
    Return "Give me name and phone please." contacts ∧
  show_phone [] contacts = Return "Insufficient data provided." contacts.
Proof.
  intros Hlen. rewrite add_contact_cases, change_contact_cases.
  by destruct args as [|a [|b [|d l]]].
Qed.

Lemma wrong_argument_count_is_reported_witness :
  add_contact ["John"; "123"; "456"] [("Ann", "1")] =
    Return "Give me name and phone please." [("Ann", "1")] ∧
  change_contact ["John"; "123"; "456"] [("Ann", "1")] =
    Return "Give me name and phone please." [("Ann", "1")] ∧
  show_phone [] [("Ann", "1")] =
    Return "Insufficient data provided." [("Ann", "1")].
Proof.
  apply (wrong_argument_count_is_reported ["John"; "123"; "456"] [("Ann", "1")]).
  discriminate.
Defined.

(** X17: what [add] stored, [phone] shows: after [add_contact] with a name
    and a phone, [show_phone] on that name returns that phone, whatever
    follows the name, and leaves the contacts as [add_contact] left
    them. *)
Theorem add_contact_then_show_phone
    (n phone : string) (rest : list string) (contacts : dict) :
  (add_contact [n; phone];; show_phone (n :: rest)) contacts =
    Return phone (setitem n phone contacts).
Proof.
  unfold mbind, M_bind. rewrite add_contact_cases, show_phone_cases.
  by rewrite lookup_key_setitem.
Qed.

(** X18: [change_contact] with a name and a phone: for a known name the
    phone is replaced and "Contact updated." returned, the names and their
    order staying as they were; for an unknown name nothing is stored and
    the answer is "Given key not found " followed by the [repr] of the
    message of the [KeyError]. *)
Theorem change_contact_updates_known_only
    (n phone : string) (contacts : dict) :
  (n ∈ keys contacts ∧
   change_contact [n; phone] contacts =
     Return "Contact updated." (setitem n phone contacts) ∧
   keys (setitem n phone contacts) = keys contacts ∧
   lookup_key n (setitem n phone contacts) = Some phone)
  ∨
  ((n ∉ keys contacts) ∧
   change_contact [n; phone] contacts =
     Return ("Given key not found "
               +:+ PyStr.repr ("Contact " +:+ n +:+ " not found."))
            contacts).
Proof.
  rewrite change_contact_cases.
  destruct (decide (n ∈ keys contacts)) as [Hin | Hnot].
  - left. rewrite (proj2 (contains_true n contacts) Hin).
    split_and!; [done | done | | apply lookup_key_setitem].
    by rewrite keys_setitem, decide_True.
  - right. by rewrite (proj2 (contains_false n contacts) Hnot).
Qed.

Lemma repr_body_plain (s : string) :
  plain s → PyStr.repr_body PyStr.single_quote s = s.
Proof.
  unfold plain, PyStr.chars. induction s as [|c s IH]; intros Hs; [done |].
  simpl in Hs. apply Forall_cons in Hs as [(Hp & Hq & Hb) Hs].
  simpl. rewrite (IH Hs). unfold PyStr.repr_char.
  rewrite !decide_False, Hp; try done; intros ->; discriminate Hp.
Qed.

Lemma repr_plain (s : string) :
  plain s → PyStr.repr s = String PyStr.single_quote (s +:+ String PyStr.single_quote "").
Proof.
  intros Hs. unfold PyStr.repr.
  rewrite (bool_decide_eq_false_2 (PyStr.single_quote ∈ PyStr.chars s)).
  - simpl. by rewrite repr_body_plain.
  - intros Hin. unfold plain in Hs.
    eapply Forall_forall in Hs as (_ & Hq & _); [| exact Hin]. done.
Qed.

(** X19: for a name of printable characters without single quote and
    backslash that is not among the contacts, [change_contact] answers
    "Given key not found 'Contact <name> not found.'", the message of the
    [KeyError] between single quotes. *)
Theorem change_contact_unknown_plain_name
    (n phone : string) (contacts : dict) :
  plain n →
  n ∉ keys contacts →
  change_contact [n; phone] contacts =
    Return ("Given key not found 'Contact " +:+ n +:+ " not found.'") contacts.
Proof.
  intros Hplain Hnot. rewrite change_contact_cases.
  rewrite (proj2 (contains_false n contacts) Hnot).
  rewrite repr_plain.
  - by rewrite !append_assoc.
  - unfold plain in *. rewrite !chars_app, !Forall_app.
    split_and!; [| done |]; by apply (bool_decide_unpack _).
Qed.

Lemma change_contact_unknown_plain_name_witness :
  change_contact ["Bob"; "123"] [("Ann", "1")] =
    Return "Given key not found 'Contact Bob not found.'" [("Ann", "1")].
Proof.
  apply (change_contact_unknown_plain_name "Bob" "123" [("Ann", "1")]).
  - unfold plain. by apply (bool_decide_unpack _).
  - by apply (bool_decide_unpack _).
Defined.

(** X20: [add_contact] with a name and a phone changes the phone of that
    name only; a name already present keeps its place among the names, a
    new name goes to the end. *)
Theorem add_contact_touches_one_name (n phone : string) (contacts : dict) :
  lookup_key n (final_state (add_contact [n; phone] contacts)) = Some phone ∧
  (∀ k, k ≠ n →
     lookup_key k (final_state (add_contact [n; phone] contacts)) =
       lookup_key k contacts) ∧
  keys (final_state (add_contact [n; phone] contacts)) =
    (if decide (n ∈ keys contacts) then keys contacts
     else keys contacts ++ [n]).
Proof.
  rewrite add_contact_cases. simpl. split_and!.
  - apply lookup_key_setitem.
  - intros k Hk. by apply lookup_key_setitem_ne.
  - apply keys_setitem.
Qed.

Lemma entries_are_tokens_setitem (n phone : string) (d : dict) :
  token n → token phone → entries_are_tokens d →
  entries_are_tokens (setitem n phone d).
Proof.
  intros Hn Hp. unfold entries_are_tokens.
  induction d as [|[k v] d IH]; intros Hd; simpl.
  - by apply Forall_singleton.
  - apply Forall_cons in Hd as [[Hk Hv] Hd].
    case_decide; apply Forall_cons; split; try done. by apply IH.
Qed.

Lemma NoDup_keys_setitem (n phone : string) (d : dict) :
  NoDup (keys d) → NoDup (keys (setitem n phone d)).
Proof.
  intros Hd. rewrite keys_setitem. case_decide as Hn; [done |].
  apply NoDup_app. split_and!; [done | | apply NoDup_singleton].
  intros k Hk Hk'. apply list_elem_of_singleton in Hk'. by subst.
Qed.

Lemma elem_of_keys_setitem (k n phone : string) (d : dict) :
  k ∈ keys d → k ∈ keys (setitem n phone d).
Proof.
  intros Hk. rewrite keys_setitem. case_decide; [done |].
  apply elem_of_app. by left.
Qed.

(** One pass of the loop leaves the contacts alone or sets one entry whose
    name and phone are tokens of the line. *)
Lemma loop_body_contacts (line msg : string) (contacts contacts' : dict) :
  loop_body line contacts = Continue msg contacts' →
  contacts' = contacts ∨
  ∃ n phone, token n ∧ token phone ∧ contacts' = setitem n phone contacts.
Proof.
  unfold loop_body, parse_input.
  pose proof (split_tokens line) as Hall.
  destruct (PyStr.split line) as [|tok args]; [done |].
  apply Forall_cons in Hall as [_ Hargs].
  case_bool_decide; [done |].
  repeat case_decide.
  - intros [= _ <-]. by left.
  - rewrite add_contact_cases.
    destruct args as [|a [|b [|d l]]]; simpl; intros [= _ <-]; try by left.
    right. exists a, b.
    apply Forall_cons in Hargs as [Ha Hargs].
    by apply Forall_cons in Hargs as [Hb _].
  - rewrite change_contact_cases.
    destruct args as [|a [|b [|d l]]]; simpl; try (intros [= _ <-]; by left).
    destruct (contains a contacts); simpl; intros [= _ <-]; [| by left].
    right. exists a, b.
    apply Forall_cons in Hargs as [Ha Hargs].
    by apply Forall_cons in Hargs as [Hb _].
  - destruct args as [|a l].
    + simpl. intros [= _ <-]. by left.
    + rewrite show_phone_cases. simpl. intros [= _ <-]. by left.
  - intros [= _ <-]. by left.
  - intros [= _ <-]. by left.
Qed.

(** X21: one pass of the loop never removes a contact: every name that was
    in the contacts is still there, and names that were distinct stay
    distinct. *)
Theorem loop_body_never_removes (line msg : string) (contacts contacts' : dict) :
  loop_body line contacts = Continue msg contacts' →
  (∀ k, k ∈ keys contacts → k ∈ keys contacts') ∧
  (NoDup (keys contacts) → NoDup (keys contacts')).
Proof.
  intros H.
  destruct (loop_body_contacts _ _ _ _ H) as [-> | (n & p & _ & _ & ->)].
  - done.
  - split.
    + intros k. apply elem_of_keys_setitem.
    + apply NoDup_keys_setitem.
Qed.

Lemma loop_body_never_removes_witness :
  loop_body "add Bob 2" [("Ann", "1")] =
    Continue "Contact added." [("Ann", "1"); ("Bob", "2")] ∧
  (∀ k, k ∈ keys [("Ann", "1")] → k ∈ keys [("Ann", "1"); ("Bob", "2")]) ∧
  (NoDup (keys [("Ann", "1")]) → NoDup (keys [("Ann", "1"); ("Bob", "2")])).
Proof.
  split; [reflexivity |].
  apply (loop_body_never_removes "add Bob 2" "Contact added."
           [("Ann", "1")] [("Ann", "1"); ("Bob", "2")]).
  reflexivity.
Defined.

(** X22: only [add] and [change] touch the contacts: a line whose command
    is neither leaves them exactly as they were; in particular [phone]
    never stores the default value of the [defaultdict]. *)
Theorem only_add_and_change_modify
    (line cmd msg : string) (args : list string) (contacts contacts' : dict) :
  parse_input line = inr (cmd, args) →
  cmd ≠ "add" → cmd ≠ "change" →
  loop_body line contacts = Continue msg contacts' →
  contacts' = contacts.
Proof.
  intros Hparse Hadd Hchange. unfold loop_body. rewrite Hparse.
  case_bool_decide; [done |].
  repeat case_decide; try done.
  - by intros [= _ <-].
  - destruct args as [|a l].
    + simpl. by intros [= _ <-].
    + rewrite show_phone_cases. simpl. by intros [= _ <-].
  - by intros [= _ <-].
  - by intros [= _ <-].
Qed.

Lemma only_add_and_change_modify_witness :
  parse_input "phone Bob" = inr ("phone", ["Bob"]) ∧
  loop_body "phone Bob" [("Ann", "1")] =
    Continue "Contact not found." [("Ann", "1")] ∧
  [("Ann", "1")] = [("Ann", "1")].
Proof.
  split_and!; [reflexivity | reflexivity |].
  apply (only_add_and_change_modify "phone Bob" "phone" "Contact not found."
           ["Bob"] [("Ann", "1")] [("Ann", "1")]); done.
Defined.

Lemma count_newlines_app (s t : string) :
  count_newlines (s +:+ t) = count_newlines s + count_newlines t.
Proof.
  unfold count_newlines. by rewrite chars_app, filter_app, length_app.
Qed.

Lemma token_no_newline (s : string) : token s → count_newlines s = 0.
Proof.
  intros [_ Hall]. unfold count_newlines.
  induction (PyStr.chars s) as [|c cs IH]; [done |].
  apply Forall_cons in Hall as [Hc Hall].
  rewrite filter_cons, decide_False; [by apply IH |].
  intros ->. discriminate Hc.
Qed.

Lemma join_newlines (l : list string) :
  l ≠ [] →
  Forall (λ x, count_newlines x = 0) l →
  S (count_newlines (PyStr.join (String "010"%char "") l)) = length l.
Proof.
  induction l as [|x [|y l] IH]; intros Hne Hall; [done | |].
  - apply Forall_cons in Hall as [Hx _]. simpl. by rewrite Hx.
  - apply Forall_cons in Hall as [Hx Hall].
    change (PyStr.join (String "010"%char "") (x :: y :: l))
      with (x +:+ String "010"%char ""
              +:+ PyStr.join (String "010"%char "") (y :: l)).
    rewrite !count_newlines_app, Hx.
    change (count_newlines (String "010"%char "")) with 1.
    cbn [plus length]. f_equal. by apply IH.
Qed.

(** X23: when the names and phones of the contacts are tokens, [show_all]
    returns "No contacts found." for no contact and otherwise a text of
    exactly as many lines as there are contacts. *)
Theorem show_all_one_line_per_contact (contacts : dict) :
  entries_are_tokens contacts →
  (contacts = [] ∧ show_all contacts = "No contacts found.") ∨
  (contacts ≠ [] ∧ S (count_newlines (show_all contacts)) = length contacts).
Proof.
  intros Hc. destruct contacts as [|kv d]; [by left | right].
  split; [done |].
  change (show_all (kv :: d))
    with (PyStr.join (String "010"%char "")
            ((λ '(n, phone), n +:+ ": " +:+ phone) <$> kv :: d)).
  rewrite join_newlines.
  - by rewrite length_fmap.
  - done.
  - apply Forall_fmap. eapply Forall_impl; [exact Hc |].
    intros [n phone] [Hn Hp]. simpl in *.
    rewrite !count_newlines_app, (token_no_newline n Hn),
      (token_no_newline phone Hp). done.
Qed.

Lemma show_all_one_line_per_contact_witness :
  ([("Ann", "1"); ("Bob", "2")] = [] ∧
   show_all [("Ann", "1"); ("Bob", "2")] = "No contacts found.") ∨
  ([("Ann", "1"); ("Bob", "2")] ≠ [] ∧
   S (count_newlines (show_all [("Ann", "1"); ("Bob", "2")])) =
     length [("Ann", "1"); ("Bob", "2")]).
Proof.
  apply (show_all_one_line_per_contact [("Ann", "1"); ("Bob", "2")]).
  unfold entries_are_tokens, token.
  repeat (apply Forall_cons; split; [by repeat constructor |]).
  apply Forall_nil_2.
Defined.

Lemma main_loop_invariant (lines : list string) (contacts contacts' : dict)
    (out out' : list string) :
  main_loop lines contacts out = Reading contacts' out' →
  entries_are_tokens contacts → NoDup (keys contacts) →
  entries_are_tokens contacts' ∧ NoDup (keys contacts') ∧
  length out' = length out + length lines.
Proof.
  revert contacts out.
  induction lines as [|line lines IH]; intros contacts out; simpl.
  - intros [= <- <-] ??. split_and!; [done | done | lia].
  - destruct (loop_body line contacts) as [msg c1 | |] eqn:Hbody; [| done | done].
    intros Hrun Htok Hdup.
    apply IH in Hrun as (? & ? & Hlen).
    + split_and!; [done | done |]. rewrite Hlen, length_app. simpl. lia.
    + destruct (loop_body_contacts _ _ _ _ Hbody) as [-> | (n & p & ? & ? & ->)];
        [done | by apply entries_are_tokens_setitem].
    + destruct (loop_body_contacts _ _ _ _ Hbody) as [-> | (n & p & ? & ? & ->)];
        [done | by apply NoDup_keys_setitem].
Qed.

(** X24: whenever [main] is waiting for the next line, the names of the
    contacts are distinct, every name and phone is a non-empty word without
    white space, and one message has been printed for the welcome and one
    for each line read. *)
Theorem main_reading_invariant
    (lines : list string) (contacts : dict) (out : list string) :
  main lines = Reading contacts out →
  entries_are_tokens contacts ∧ NoDup (keys contacts) ∧
  length out = S (length lines).
Proof.
  unfold main. intros H.
  apply main_loop_invariant in H; [done | apply Forall_nil_2 | apply NoDup_nil_2].
Qed.

Lemma main_reading_invariant_witness :
  entries_are_tokens [("John", "2")] ∧ NoDup (keys [("John", "2")]) ∧
  length ["Welcome to the assistant bot!"; "Contact added."; "Contact updated."]
    = S (length ["add John 1"; "change John 2"]).
Proof.
  apply (main_reading_invariant ["add John 1"; "change John 2"]).
  reflexivity.
Defined.

End dispatcher_more.
